(** * Team Step Challenge Tracker (app.py): entry store, overlap validation,
      date expansion and aggregation.

    The Streamlit script is embedded as pure functions over an explicit
    store:
    - a calendar date is its proleptic Gregorian ordinal (what
      [datetime.date.toordinal] returns); a timestamp of the data frame
      is the date it falls on, as the script writes midnight timestamps;
    - [CSV_FILE] is a value of type [csv_file]; a data frame is the list
      of its rows in index order;
    - a name is a string and is the same in the file and in the frame.
      This leaves out what [pd.read_csv] does to some names: a cell such
      as NA, null or the empty cell is read as a missing value, and a
      column of number-like names is read as numbers, on which [.str]
      raises.  Nothing proved below about names in the frame carries over
      to such names; the dates and the step counts are not affected;
    - [explode_row] carries the exact quotient as the per-day share and
      [explode_row_float64] the binary64 quotient the interpreter
      computes; the two round to the same integer below 2^52 steps
      ([float64_share_rounds_alike]). *)
From Stdlib Require Import ZArith QArith Qround Qabs String Ascii List Bool Lia.

From Stdlib Require Import Permutation Sorted.

Import ListNotations.

Local Open Scope Z_scope.

(* ===================================================================== *)
(** ** Calendar dates *)
(* ===================================================================== *)

Module Calendar.

(** A [datetime.date] (and a midnight [pd.Timestamp]) is its ordinal:
    day 1 is 0001-01-01. *)
Definition date := Z.

(** [datetime._is_leap] *)
Definition is_leap (year : Z) : bool :=
  (year mod 4 =? 0) && (negb (year mod 100 =? 0) || (year mod 400 =? 0)).

(** [datetime._days_before_year] *)
Definition days_before_year (year : Z) : Z :=
  let y := year - 1 in
  y * 365 + y / 4 - y / 100 + y / 400.

(** [datetime._DAYS_BEFORE_MONTH] *)
Definition DAYS_BEFORE_MONTH (month : Z) : Z :=
  nth (Z.to_nat month) [-1; 0; 31; 59; 90; 120; 151; 181; 212; 243; 273; 304; 334] (-1).

(** [datetime._days_before_month] *)
Definition days_before_month (year month : Z) : Z :=
  DAYS_BEFORE_MONTH month + (if (2 <? month) && is_leap year then 1 else 0).

(** [datetime._ymd2ord]: the value of [datetime.date(year, month, day)]. *)
Definition ymd2ord (year month day : Z) : date :=
  days_before_year year + days_before_month year month + day.

Definition DI400Y : Z := Eval cbv in days_before_year 401.

Definition DI100Y : Z := Eval cbv in days_before_year 101.

Definition DI4Y : Z := Eval cbv in days_before_year 5.

(** The year component of [datetime._ord2ymd]. *)
Definition year_of (d : date) : Z :=
  let n := d - 1 in
  let n400 := n / DI400Y in
  let n := n mod DI400Y in
  let n100 := n / DI100Y in
  let n := n mod DI100Y in
  let n4 := n / DI4Y in
  let n := n mod DI4Y in
  let n1 := n / 365 in
  let year := n400 * 400 + 1 + n100 * 100 + n4 * 4 + n1 in
  if (n1 =? 4) || (n100 =? 4) then year - 1 else year.

(** [datetime._isoweek1monday] *)
Definition isoweek1monday (year : Z) : Z :=
  let firstday := ymd2ord year 1 1 in
  let firstweekday := (firstday + 6) mod 7 in
  let week1monday := firstday - firstweekday in
  if 3 <? firstweekday then week1monday + 7 else week1monday.

(** The week component of [date.isocalendar()], which is what
    [Series.dt.isocalendar().week] holds for each timestamp. *)
Definition isoweek (d : date) : Z :=
  let year := year_of d in
  let week := (d - isoweek1monday year) / 7 in
  if week <? 0 then (d - isoweek1monday (year - 1)) / 7 + 1
  else if (52 <=? week) && (isoweek1monday (year + 1) <=? d) then 1
  else week + 1.

End Calendar.

Import Calendar.

(* ===================================================================== *)
(** ** Constants *)
(* ===================================================================== *)

Definition TEAM_GOAL : Z := 500000.

Definition ALLOWED_START_DATE : date := ymd2ord 2025 7 1.

Definition ALLOWED_END_DATE : date := ymd2ord 2025 7 31.

(* ===================================================================== *)
(** ** Entry store *)
(* ===================================================================== *)

(** A row of the data frame returned by [load_data]: both dates parsed. *)
Record Entry := mkEntry {
  name : string;
  start_date : date;
  end_date : date;
  steps : Z
}.

(** A row of the CSV table as [pd.read_csv] and
    [pd.to_datetime(..., errors='coerce')] see it: a date cell that does
    not parse is [NaT], here [None]. *)
Record CsvRow := mkCsvRow {
  csv_name : string;
  csv_start_date : option date;
  csv_end_date : option date;
  csv_steps : Z
}.

(** The state of [CSV_FILE]. *)
Inductive csv_file :=
| FileNotFound                      (* read_csv raises FileNotFoundError *)
| EmptyData                         (* no columns: read_csv raises EmptyDataError *)
| Table (rows : list CsvRow).       (* header and rows *)

(** [df.dropna(subset=['start_date', 'end_date'])] after the coercion. *)
Fixpoint dropna (rows : list CsvRow) : list Entry :=
  match rows with
  | [] => []
  | r :: rest =>
      match csv_start_date r, csv_end_date r with
      | Some s, Some e => mkEntry (csv_name r) s e (csv_steps r) :: dropna rest
      | _, _ => dropna rest
      end
  end.

(** [load_data] *)
Definition load_data (file : csv_file) : list Entry :=
  match file with
  | FileNotFound => []
  | EmptyData => []
  | Table rows =>
      match rows with
      | [] => []                    (* df.empty *)
      | _ => dropna rows
      end
  end.

Definition to_csv_row (e : Entry) : CsvRow :=
  mkCsvRow (name e) (Some (start_date e)) (Some (end_date e)) (steps e).

(** [save_data]: [df.to_csv(CSV_FILE, index=False)] replaces the file. *)
Definition save_data (df : list Entry) : csv_file :=
  Table (map to_csv_row df).

(* ===================================================================== *)
(** ** Overlap validator *)
(* ===================================================================== *)

(** [date_ranges_overlap] *)
Definition date_ranges_overlap (start1 end1 start2 end2 : date) : bool :=
  Z.max start1 start2 <=? Z.min end1 end2.

(** [str.lower] on the characters A..Z; other bytes are left as they are,
    so this is [str.lower] on ASCII names only (Python also folds letters
    outside ASCII). *)
Definition lower_ascii (c : ascii) : ascii :=
  let n := nat_of_ascii c in
  if (Nat.leb 65 n && Nat.leb n 90)%bool then ascii_of_nat (n + 32) else c.

Fixpoint lower (s : string) : string :=
  match s with
  | EmptyString => EmptyString
  | String c rest => String (lower_ascii c) (lower rest)
  end.

(** [df[df['name'].str.lower() == name.lower()]], for a name column that
    holds strings; on a column read back as numbers [.str] raises and the
    script stops, which is not modelled. *)
Definition user_df (df : list Entry) (nm : string) : list Entry :=
  filter (fun r => String.eqb (lower (name r)) (lower nm)) df.

(** [any(date_ranges_overlap(start_date, end_date, r['start_date'].date(),
    r['end_date'].date()) for _, r in user_df.iterrows())] *)
Definition overlap_found (df : list Entry) (nm : string) (s e : date) : bool :=
  existsb (fun r => date_ranges_overlap s e (start_date r) (end_date r)) (user_df df nm).

(** What the form reports after "Submit Steps". *)
Inductive outcome :=
| Accepted                          (* "Steps submitted successfully!" *)
| InvalidRange                      (* "Start date cannot be after end date." *)
| OverlapConflict.                  (* "Overlapping entry detected. ..." *)

(** The [if submitted:] branch, run on the file as it is when the script
    starts ([df = load_data()]); [nm] is the name after [name.strip()].
    Returns the message and the file the branch leaves behind. *)
Definition submit (file : csv_file) (nm : string) (s e : date) (n : Z)
  : outcome * csv_file :=
  let df := load_data file in
  if e <? s then (InvalidRange, file)
  else if overlap_found df nm s e then (OverlapConflict, file)
  else
    let new_entry := [mkEntry nm s e n] in
    let df := df ++ new_entry in
    (Accepted, save_data df).

(** The values one filled-in form hands to the script. *)
Record Submission := mkSubmission {
  sub_name : string;
  sub_start : date;
  sub_end : date;
  sub_steps : Z
}.

Definition submit_form (file : csv_file) (f : Submission) : outcome * csv_file :=
  submit file (sub_name f) (sub_start f) (sub_end f) (sub_steps f).

(** Successive script runs, one submitted form each. *)
Fixpoint run (file : csv_file) (forms : list Submission) : csv_file :=
  match forms with
  | [] => file
  | f :: rest => run (snd (submit_form file f)) rest
  end.

(* ===================================================================== *)
(** ** Date expansion *)
(* ===================================================================== *)

(** [pd.date_range(start, end)] at the default daily frequency: the days
    start, start+1, ..., up to and including end; empty when end < start. *)
Definition date_range (s e : date) : list date :=
  map (fun i => s + Z.of_nat i) (seq 0 (Z.to_nat (e - s + 1))).

(** [explode_dates] *)
Definition explode_dates (row : Entry) : list date :=
  date_range (start_date row) (end_date row).

(** One dict appended to [exploded]; the share [row['steps'] / len(dates)]
    is the exact quotient. *)
Record ExplodedDay := mkExplodedDay {
  day_name : string;
  day_date : date;
  day_steps : Q
}.

(** The body of [for _, row in df.iterrows()]. *)
Definition explode_row (row : Entry) : list ExplodedDay :=
  let dates := explode_dates row in
  map (fun d => mkExplodedDay (name row) d
                  (inject_Z (steps row) / inject_Z (Z.of_nat (length dates))))
      dates.

(** The list [exploded] after the loop over all rows. *)
Definition exploded (df : list Entry) : list ExplodedDay :=
  flat_map explode_row df.

(** [Series.round()]: to the nearest integer, a tie going to the even
    neighbour; [.astype(int)] then reads the integral value as an int. *)
Definition round_half_even (q : Q) : Z :=
  let f := Qfloor q in
  match Qcompare (q - inject_Z f) (1 # 2) with
  | Lt => f
  | Gt => f + 1
  | Eq => if Z.even f then f else f + 1
  end.

(** [a / n] to the nearest integer, a tie going to the even one, for
    [0 < n]. *)
Definition round_div (a n : Z) : Z :=
  let q := a / n in
  let r := a mod n in
  if 2 * r <? n then q
  else if n <? 2 * r then q + 1
  else if Z.even q then q else q + 1.

(** The float that [a / n] is for ints [0 <= a] and [0 < n]: the binary64
    value nearest the exact quotient, a tie going to the even significand.
    Every finite binary64 value is a multiple of 2^-1074, and one of
    magnitude at least 2^(c+52) * 2^-1074 is a multiple of 2^c * 2^-1074. *)
Definition float64_div (a n : Z) : Q :=
  let X := a * 2 ^ 1074 in
  let c := Z.max 0 (Z.log2 (X / n) - 52) in
  inject_Z (round_div X (n * 2 ^ c) * 2 ^ c) / inject_Z (2 ^ 1074).

(** A row of [exploded_df] once the [week] column is added and [steps] is
    rounded. *)
Record ExplodedRow := mkExplodedRow {
  row_name : string;
  row_date : date;
  row_steps : Z;
  row_week : Z
}.

(** [exploded_df]: lines 104-106. *)
Definition exploded_df (xs : list ExplodedDay) : list ExplodedRow :=
  map (fun x => mkExplodedRow (day_name x) (day_date x)
                  (round_half_even (day_steps x)) (isoweek (day_date x)))
      xs.

(** [a / b] on Python ints, [b > 0]: the binary64 value nearest the exact
    quotient, whatever the sign of [a]. *)
Definition true_divide (a n : Z) : Q :=
  if a <? 0 then (- float64_div (- a) n)%Q else float64_div a n.

(** The body of [for _, row in df.iterrows()] with the share as line 100
    computes it: [row['steps'] / len(dates)] is a float. *)
Definition explode_row_float64 (row : Entry) : list ExplodedDay :=
  let dates := explode_dates row in
  map (fun d => mkExplodedDay (name row) d
                  (true_divide (steps row) (Z.of_nat (length dates))))
      dates.

(** The list [exploded] after the loop over all rows, shares as floats. *)
Definition exploded_float64 (df : list Entry) : list ExplodedDay :=
  flat_map explode_row_float64 df.

(* ===================================================================== *)
(** ** Aggregation *)
(* ===================================================================== *)

Fixpoint Zsum (l : list Z) : Z :=
  match l with
  | [] => 0
  | x :: rest => x + Zsum rest
  end.

Section Frames.

Context {A : Type}.

Variable eqb : A -> A -> bool.

Variable leb : A -> A -> bool.

(** [Series.unique()]: the distinct values in order of first appearance. *)
Fixpoint unique (l : list A) : list A :=
  match l with
  | [] => []
  | x :: rest => x :: filter (fun y => negb (eqb x y)) (unique rest)
  end.

Fixpoint insert_sorted (x : A) (l : list A) : list A :=
  match l with
  | [] => [x]
  | y :: rest => if leb x y then x :: y :: rest else y :: insert_sorted x rest
  end.

(** [sorted(...)] and [sort_values]: a sort by [leb].  Here rows that tie
    stay in the order they had; [sort_values] with its default algorithm
    does not promise that, so nothing below depends on the order of ties. *)
Fixpoint sorted (l : list A) : list A :=
  match l with
  | [] => []
  | x :: rest => insert_sorted x (sorted rest)
  end.

(** [groupby(key)['steps'].sum().reset_index()]: one row per distinct
    key, keys ascending, with the sum of the steps of its group.  Every
    row has a key here; pandas leaves out the rows whose key is missing. *)
Definition groupby_sum (key : ExplodedRow -> A) (rows : list ExplodedRow)
  : list (A * Z) :=
  map (fun k => (k, Zsum (map row_steps (filter (fun r => eqb (key r) k) rows))))
      (sorted (unique (map key rows))).

End Frames.

(** [sort_values(by='steps', ascending=False)] *)
Definition sort_by_steps_desc (lb : list (string * Z)) : list (string * Z) :=
  sorted (fun a b => snd b <=? snd a) lb.

(** [sorted(exploded_df['week'].unique())] *)
Definition weeks_available (xdf : list ExplodedRow) : list Z :=
  sorted Z.leb (unique Z.eqb (map row_week xdf)).

(** [week_data] and [week_leaderboard] for the week chosen in the selectbox. *)
Definition week_data (xdf : list ExplodedRow) (selected_week : Z) : list ExplodedRow :=
  filter (fun r => row_week r =? selected_week) xdf.

Definition week_leaderboard (xdf : list ExplodedRow) (selected_week : Z)
  : list (string * Z) :=
  sort_by_steps_desc (groupby_sum String.eqb String.leb row_name (week_data xdf selected_week)).

(** [monthly_df] *)
Definition monthly_df (xdf : list ExplodedRow) : list (string * Z) :=
  sort_by_steps_desc (groupby_sum String.eqb String.leb row_name xdf).

(** [total_steps] *)
Definition total_steps (xdf : list ExplodedRow) : Z :=
  Zsum (map row_steps xdf).

(** [daily_totals] *)
Definition daily_totals (xdf : list ExplodedRow) : list (date * Z) :=
  groupby_sum Z.eqb Z.leb row_date xdf.

(** The steps a leaderboard shows for a participant; a participant with no
    row in it has none. *)
Definition leaderboard_total (lb : list (string * Z)) (nm : string) : Z :=
  match find (fun p => String.eqb (fst p) nm) lb with
  | Some p => snd p
  | None => 0
  end.

(** What the page shows below the form: the views, or the notice of the
    [else] branch of [if exploded:]. *)
Inductive page :=
| NoStepData                        (* "No step data available yet." *)
| Views (weeks : list Z)
        (monthly : list (string * Z))
        (progress : Z * Z)          (* "{total_steps} / {TEAM_GOAL} steps" *)
        (daily : list (date * Z)).

(** The views computed from line 90 on, from the binary64 shares.  The
    per-user table of line 124 is not part of [page]. *)
Definition render (file : csv_file) : page :=
  let df := load_data file in
  match exploded_float64 df with
  | [] => NoStepData
  | xs =>
      let xdf := exploded_df xs in
      Views (weeks_available xdf) (monthly_df xdf)
            (total_steps xdf, TEAM_GOAL) (daily_totals xdf)
  end.

(** The team-progress metric and the daily series as the page holds them. *)
Definition get_team_progress (file : csv_file) : option (Z * Z) :=
  match render file with
  | NoStepData => None
  | Views _ _ progress _ => Some progress
  end.

Definition get_daily_totals (file : csv_file) : option (list (date * Z)) :=
  match render file with
  | NoStepData => None
  | Views _ _ _ daily => Some daily
  end.

(** [top_user]: the first row of the week's leaderboard, when it has one
    (lines 118-120). *)
Definition top_user (xdf : list ExplodedRow) (selected_week : Z)
  : option (string * Z) :=
  match week_leaderboard xdf selected_week with
  | [] => None
  | top :: _ => Some top
  end.

(* ===================================================================== *)
(** ** Properties of stores *)
(* ===================================================================== *)

(** No two entries of one participant, at different rows, share a day. *)
Definition no_overlap (df : list Entry) : Prop :=
  forall i j r1 r2,
    i <> j ->
    nth_error df i = Some r1 ->
    nth_error df j = Some r2 ->
    lower (name r1) = lower (name r2) ->
    date_ranges_overlap (start_date r1) (end_date r1) (start_date r2) (end_date r2) = false.

(** An entry whose range is not empty. *)
Definition valid_range (r : Entry) : Prop := start_date r <= end_date r.

(** An entry with both dates within the allowed month. *)
Definition in_allowed_month (r : Entry) : Prop :=
  ALLOWED_START_DATE <= start_date r <= ALLOWED_END_DATE
  /\ ALLOWED_START_DATE <= end_date r <= ALLOWED_END_DATE.

(** The ISO weeks that touch July 2025. *)
Definition JULY_2025_WEEKS : list Z := [27; 28; 29; 30; 31].

(* ===================================================================== *)
(** ** Store facts *)
(* ===================================================================== *)

Lemma dropna_to_csv_row (df : list Entry) : dropna (map to_csv_row df) = df.
Proof.
  induction df as [|[nm s e n] df IH]; simpl; [reflexivity|].
  now rewrite IH.
Qed.

Lemma load_save (df : list Entry) : load_data (save_data df) = df.
Proof.
  unfold save_data, load_data.
  destruct df as [|r df]; [reflexivity|].
  change (map to_csv_row (r :: df)) with (to_csv_row r :: map to_csv_row df).
  now rewrite <- (dropna_to_csv_row (r :: df)).
Qed.

(** The three ways through [submit]. *)
Lemma submit_cases (file : csv_file) (nm : string) (s e : date) (n : Z) :
  (e < s /\ submit file nm s e n = (InvalidRange, file))
  \/ (s <= e /\ overlap_found (load_data file) nm s e = true
      /\ submit file nm s e n = (OverlapConflict, file))
  \/ (s <= e /\ overlap_found (load_data file) nm s e = false
      /\ submit file nm s e n
         = (Accepted, save_data (load_data file ++ [mkEntry nm s e n]))).
Proof.
  unfold submit.
  destruct (Z.ltb_spec e s) as [Hlt|Hle].
  - left. now split.
  - right. destruct (overlap_found (load_data file) nm s e) eqn:Hov.
    + left. repeat split; auto.
    + right. repeat split; auto.
Qed.

Lemma submit_accepted_load (file : csv_file) (nm : string) (s e : date) (n : Z) :
  fst (submit file nm s e n) = Accepted ->
  s <= e
  /\ overlap_found (load_data file) nm s e = false
  /\ load_data (snd (submit file nm s e n)) = load_data file ++ [mkEntry nm s e n].
Proof.
  intros Hacc.
  destruct (submit_cases file nm s e n) as [[_ H]|[(_ & _ & H)|(Hle & Hov & H)]];
    rewrite H in Hacc |- *; cbn [fst snd] in *; try discriminate.
  now rewrite load_save.
Qed.

Lemma submit_rejected_file (file : csv_file) (nm : string) (s e : date) (n : Z) :
  fst (submit file nm s e n) <> Accepted ->
  snd (submit file nm s e n) = file.
Proof.
  intros Hrej.
  destruct (submit_cases file nm s e n) as [[_ H]|[(_ & _ & H)|(_ & _ & H)]];
    rewrite H in Hrej |- *; cbn [fst snd] in *; congruence.
Qed.

Lemma outcome_eq_dec (a b : outcome) : {a = b} + {a <> b}.
Proof. decide equality. Qed.

(** A property of the loaded entries that every accepted entry has is kept by
    one submission, hence by any number of them. *)
Lemma submit_preserves_Forall (P : Entry -> Prop) (file : csv_file)
      (nm : string) (s e : date) (n : Z) :
  (fst (submit file nm s e n) = Accepted -> P (mkEntry nm s e n)) ->
  Forall P (load_data file) ->
  Forall P (load_data (snd (submit file nm s e n))).
Proof.
  intros Hnew Hold.
  destruct (outcome_eq_dec (fst (submit file nm s e n)) Accepted) as [Hacc|Hrej].
  - destruct (submit_accepted_load _ _ _ _ _ Hacc) as (_ & _ & ->).
    apply Forall_app. split; [assumption|]. constructor; auto.
  - now rewrite submit_rejected_file.
Qed.

Lemma overlap_found_false (df : list Entry) (nm : string) (s e : date) :
  overlap_found df nm s e = false <->
  forall r, In r df -> lower (name r) = lower nm ->
            date_ranges_overlap s e (start_date r) (end_date r) = false.
Proof.
  unfold overlap_found, user_df. split.
  - intros H r Hin Hnm.
    destruct (date_ranges_overlap s e (start_date r) (end_date r)) eqn:Hov; [|reflexivity].
    assert (existsb (fun r => date_ranges_overlap s e (start_date r) (end_date r))
              (filter (fun r => String.eqb (lower (name r)) (lower nm)) df) = true) as Hex.
    { apply existsb_exists. exists r. split; [|assumption].
      apply filter_In. split; [assumption|]. now apply String.eqb_eq. }
    congruence.
  - intros H.
    destruct (existsb _ _) eqn:Hex; [|reflexivity].
    apply existsb_exists in Hex. destruct Hex as (r & Hin & Hov).
    apply filter_In in Hin. destruct Hin as [Hin Hnm].
    apply String.eqb_eq in Hnm.
    rewrite (H r Hin Hnm) in Hov. discriminate.
Qed.

Lemma date_ranges_overlap_sym (s1 e1 s2 e2 : date) :
  date_ranges_overlap s1 e1 s2 e2 = date_ranges_overlap s2 e2 s1 e1.
Proof.
  unfold date_ranges_overlap. now rewrite (Z.max_comm s1 s2), (Z.min_comm e1 e2).
Qed.

Lemma no_overlap_nil : no_overlap [].
Proof. intros i j r1 r2 _ H. destruct i; discriminate. Qed.

Lemma nth_error_snoc {A} (l : list A) (x y : A) (i : nat) :
  nth_error (l ++ [x]) i = Some y ->
  (i < length l)%nat /\ nth_error l i = Some y \/ i = length l /\ y = x.
Proof.
  intros H.
  destruct (Nat.lt_ge_cases i (length l)) as [Hlt|Hge].
  - left. rewrite nth_error_app1 in H by assumption. auto.
  - right. rewrite nth_error_app2 in H by assumption.
    destruct (i - length l)%nat as [|k] eqn:Hk; simpl in H.
    + split; [lia|congruence].
    + destruct k; discriminate.
Qed.

Lemma no_overlap_snoc (df : list Entry) (new : Entry) :
  no_overlap df ->
  (forall r, In r df -> lower (name r) = lower (name new) ->
     date_ranges_overlap (start_date new) (end_date new) (start_date r) (end_date r) = false) ->
  no_overlap (df ++ [new]).
Proof.
  intros Hold Hnew i j r1 r2 Hij H1 H2 Hnm.
  apply nth_error_snoc in H1. apply nth_error_snoc in H2.
  destruct H1 as [[Hi H1]|[Hi ->]], H2 as [[Hj H2]|[Hj ->]].
  - eauto.
  - rewrite date_ranges_overlap_sym. apply Hnew; [|assumption].
    eapply nth_error_In; eassumption.
  - apply Hnew; [|congruence]. eapply nth_error_In; eassumption.
  - lia.
Qed.

Lemma submit_preserves_no_overlap (file : csv_file) (nm : string) (s e : date) (n : Z) :
  no_overlap (load_data file) ->
  no_overlap (load_data (snd (submit file nm s e n))).
Proof.
  intros Hold.
  destruct (outcome_eq_dec (fst (submit file nm s e n)) Accepted) as [Hacc|Hrej].
  - destruct (submit_accepted_load _ _ _ _ _ Hacc) as (_ & Hov & ->).
    apply no_overlap_snoc; [assumption|]. simpl.
    now apply overlap_found_false.
  - now rewrite submit_rejected_file.
Qed.

(** Invariants of single submissions hold along [run]. *)
Lemma run_invariant (I : csv_file -> Prop) (ok : Submission -> Prop) :
  (forall file f, ok f -> I file -> I (snd (submit_form file f))) ->
  forall forms file, Forall ok forms -> I file -> I (run file forms).
Proof.
  intros Hstep forms.
  induction forms as [|f forms IH]; intros file Hok HI; simpl; [assumption|].
  inversion Hok; subst. apply IH; auto.
Qed.

(* ===================================================================== *)
(** ** Submission: theorems *)
(* ===================================================================== *)

(** C5. [date_ranges_overlap] holds exactly when
    max(start1,start2) <= min(end1,end2), which is exactly when the two
    inclusive ranges share a day; two ranges that touch at an endpoint
    overlap. *)
Theorem date_ranges_overlap_iff (s1 e1 s2 e2 : date) :
  (date_ranges_overlap s1 e1 s2 e2 = true <-> Z.max s1 s2 <= Z.min e1 e2)
  /\ (date_ranges_overlap s1 e1 s2 e2 = true <->
      exists d, (s1 <= d <= e1) /\ (s2 <= d <= e2))
  /\ (s1 <= e1 -> s2 <= e2 -> e1 = s2 \/ e2 = s1 ->
      date_ranges_overlap s1 e1 s2 e2 = true).
Proof.
  unfold date_ranges_overlap. rewrite Z.leb_le.
  split; [reflexivity|]. split.
  - split.
    + intros H. exists (Z.max s1 s2). lia.
    + intros (d & H1 & H2). lia.
  - intros H1 H2 [->| ->]; lia.
Qed.

Lemma date_ranges_overlap_iff_witness :
  1 <= 3 /\ 3 <= 7 /\ date_ranges_overlap 1 3 3 7 = true.
Proof.
  split; [lia|]. split; [lia|].
  apply (date_ranges_overlap_iff 1 3 3 7); [lia | lia | left; reflexivity].
Defined.

(** C6. A submission with start_date after end_date is answered with
    InvalidRange and leaves the file as it was; a submission with
    start_date <= end_date is never answered with InvalidRange; so an
    accepted entry has start_date <= end_date, and a store whose entries
    all have it keeps it through any submissions. *)
Theorem invalid_range_rejected (file : csv_file) (nm : string) (s e : date) (n : Z)
        (forms : list Submission) :
  (e < s -> submit file nm s e n = (InvalidRange, file))
  /\ (s <= e -> fst (submit file nm s e n) <> InvalidRange)
  /\ (fst (submit file nm s e n) = Accepted -> s <= e)
  /\ (Forall valid_range (load_data file) ->
      Forall valid_range (load_data (run file forms))).
Proof.
  repeat split.
  - intros Hlt.
    destruct (submit_cases file nm s e n) as [[_ H]|[(H0 & _)|(H0 & _)]];
      [assumption|lia|lia].
  - intros Hle.
    destruct (submit_cases file nm s e n) as [[H0 _]|[(_ & _ & H)|(_ & _ & H)]];
      [lia| |]; rewrite H; discriminate.
  - intros Hacc. now destruct (submit_accepted_load _ _ _ _ _ Hacc).
  - intros Hinv.
    apply (run_invariant (fun f => Forall valid_range (load_data f)) (fun _ => True));
      [| now apply Forall_forall | assumption].
    intros file' f _ Hold. unfold submit_form.
    apply submit_preserves_Forall; [|assumption].
    intros Hacc. unfold valid_range; simpl.
    now destruct (submit_accepted_load _ _ _ _ _ Hacc).
Qed.

Lemma invalid_range_rejected_witness :
  submit FileNotFound "Bob" 739442 739441 100 = (InvalidRange, FileNotFound)
  /\ fst (submit FileNotFound "Bob" 739441 739442 100) <> InvalidRange
  /\ Forall valid_range
       (load_data (run FileNotFound
          [mkSubmission "Bob" 739441 739442 100; mkSubmission "Bob" 739450 739445 7])).
Proof.
  split; [|split].
  - apply (invalid_range_rejected FileNotFound "Bob" 739442 739441 100 []). lia.
  - apply (invalid_range_rejected FileNotFound "Bob" 739441 739442 100 []). lia.
  - apply (invalid_range_rejected FileNotFound "Bob" 739441 739442 100
             [mkSubmission "Bob" 739441 739442 100; mkSubmission "Bob" 739450 739445 7]).
    simpl. constructor.
Defined.




(* ===================================================================== *)
(** ** Date expansion: facts *)
(* ===================================================================== *)

Lemma date_range_length (s e : date) :
  length (date_range s e) = Z.to_nat (e - s + 1).
Proof. unfold date_range. now rewrite length_map, length_seq. Qed.


Lemma date_range_In (s e d : date) :
  In d (date_range s e) <-> s <= d <= e.
Proof.
  unfold date_range. rewrite in_map_iff. split.
  - intros (i & <- & Hi). apply in_seq in Hi. lia.
  - intros Hd. exists (Z.to_nat (d - s)). split; [lia|].
    apply in_seq. lia.
Qed.

Lemma date_range_NoDup (s e : date) : NoDup (date_range s e).
Proof.
  unfold date_range.
  apply Finite.Injective_map_NoDup; [|apply seq_NoDup].
  intros i j H. lia.
Qed.


(** The rounding of a quotient of integers, read off quotient and
    remainder. *)
Lemma round_half_even_quotient (a n : Z) :
  0 < n ->
  round_half_even (inject_Z a / inject_Z n) = round_div a n.
Proof.
  intros Hn. unfold round_div.
  set (q := a / n). set (r := a mod n).
  destruct n as [|p|p]; try lia.
  unfold round_half_even.
  assert (Qfloor (inject_Z a / inject_Z (Z.pos p)) = q) as Hfloor.
  { transitivity (Qfloor (a # p)); [|reflexivity].
    apply Qfloor_comp. symmetry. apply Qmake_Qdiv. }
  rewrite Hfloor.
  pose proof (Z.div_mod a (Z.pos p) ltac:(lia)) as Hdm.
  fold q r in Hdm.
  assert (inject_Z a / inject_Z (Z.pos p) - inject_Z q == r # p)%Q as Hfrac.
  { rewrite <- (Qmake_Qdiv a p). unfold Qeq, Qminus, Qplus, Qopp, inject_Z.
    cbn [Qnum Qden]. rewrite !Pos2Z.inj_mul. nia. }
  rewrite (Qcompare_comp _ _ Hfrac (1 # 2) (1 # 2) (Qeq_refl _)).
  unfold Qcompare. cbn [Qnum Qden].
  destruct (Z.ltb_spec (2 * r) (Z.pos p)) as [H1|H1].
  - replace (r * 2 ?= 1 * Z.pos p) with Lt; [reflexivity|].
    symmetry. apply Z.compare_lt_iff. lia.
  - destruct (Z.ltb_spec (Z.pos p) (2 * r)) as [H2|H2].
    + replace (r * 2 ?= 1 * Z.pos p) with Gt; [reflexivity|].
      symmetry. apply Z.compare_gt_iff. lia.
    + replace (r * 2 ?= 1 * Z.pos p) with Eq; [reflexivity|].
      symmetry. apply Z.compare_eq_iff. lia.
Qed.

(** Rounding moves a quotient by at most one half. *)
Lemma round_half_even_quotient_near (a n : Z) :
  0 < n ->
  2 * Z.abs (n * round_half_even (inject_Z a / inject_Z n) - a) <= n.
Proof.
  intros Hn. rewrite round_half_even_quotient by assumption. unfold round_div.
  pose proof (Z.div_mod a n ltac:(lia)) as Hdm.
  pose proof (Z.mod_pos_bound a n Hn) as Hr.
  destruct (Z.ltb_spec (2 * (a mod n)) n);
    [|destruct (Z.ltb_spec n (2 * (a mod n))); [|destruct (Z.even (a / n))]]; nia.
Qed.

Lemma round_half_even_quotient_exact (a n : Z) :
  0 < n -> a mod n = 0 ->
  round_half_even (inject_Z a / inject_Z n) = a / n.
Proof.
  intros Hn Hr. rewrite round_half_even_quotient by assumption. unfold round_div.
  rewrite Hr. destruct (Z.ltb_spec (2 * 0) n); [reflexivity|lia].
Qed.

(** Scaling both sides leaves the rounded quotient as it is. *)
Lemma round_div_scale (a n k : Z) :
  0 < n -> 0 < k -> round_div (a * k) (n * k) = round_div a n.
Proof.
  intros Hn Hk. unfold round_div.
  rewrite Z.div_mul_cancel_r by lia.
  rewrite Zmult_mod_distr_r.
  destruct (Z.ltb_spec (2 * (a mod n)) n), (Z.ltb_spec (2 * (a mod n * k)) (n * k)); try nia.
  destruct (Z.ltb_spec n (2 * (a mod n))), (Z.ltb_spec (n * k) (2 * (a mod n * k)));
    try nia; try reflexivity.
Qed.

Lemma round_div_cases (a n : Z) :
  0 < n ->
  let k := a / n in
  let r := a mod n in
  (2 * r < n /\ round_div a n = k)
  \/ (n < 2 * r /\ round_div a n = k + 1)
  \/ (2 * r = n /\ round_div a n = if Z.even k then k else k + 1).
Proof.
  intros Hn k r. unfold round_div. fold k r.
  destruct (Z.ltb_spec (2 * r) n); [left; auto|].
  destruct (Z.ltb_spec n (2 * r)); [right; left; auto|].
  right; right. split; [lia|reflexivity].
Qed.

Lemma div_mod_between (m N k : Z) :
  0 < N ->
  k * N <= m < (k + 1) * N ->
  m / N = k /\ m mod N = m - k * N.
Proof.
  intros HN Hm.
  assert (m / N = k) as Hq.
  { symmetry. apply (Z.div_unique m N k (m - k * N)); lia. }
  split; [assumption|].
  pose proof (Z.div_mod m N ltac:(lia)). rewrite Hq in *. lia.
Qed.

(** Rounding the quotient to a multiple of 1/N first, N even and above n,
    does not change the integer it rounds to. *)
Lemma round_div_twice (a n N : Z) :
  0 < n < N -> Z.even N = true ->
  round_div (round_div (a * N) n) N = round_div a n.
Proof.
  intros Hn HN.
  apply Z.even_spec in HN. destruct HN as [N' HN].
  pose proof (Z.div_mod a n ltac:(lia)) as Hdm.
  pose proof (Z.mod_pos_bound a n ltac:(lia)) as Hr.
  pose proof (Z.div_mod (a * N) n ltac:(lia)) as Hdm'.
  pose proof (Z.mod_pos_bound (a * N) n ltac:(lia)) as Hr'.
  set (k := a / n) in *. set (r := a mod n) in *.
  set (m := round_div (a * N) n).
  assert (2 * Z.abs (n * m - a * N) <= n) as Hnear.
  { unfold m.
    destruct (round_div_cases (a * N) n ltac:(lia)) as [[H ->]|[[H ->]|[H ->]]];
      [| |destruct (Z.even _)]; nia. }
  destruct (round_div_cases a n ltac:(lia)) as [[H ->]|[[H ->]|[H ->]]]; fold k r in H |- *.
  - assert (k * N <= m < (k + 1) * N /\ 2 * (m - k * N) < N) as [Hm Hd] by nia.
    destruct (div_mod_between m N k ltac:(lia) Hm) as [Hq Hmod].
    unfold round_div. rewrite Hq, Hmod.
    destruct (Z.ltb_spec (2 * (m - k * N)) N); lia.
  - assert (k * N <= m < (k + 1) * N /\ N < 2 * (m - k * N)) as [Hm Hd] by nia.
    destruct (div_mod_between m N k ltac:(lia) Hm) as [Hq Hmod].
    unfold round_div. rewrite Hq, Hmod.
    destruct (Z.ltb_spec (2 * (m - k * N)) N); [lia|].
    destruct (Z.ltb_spec N (2 * (m - k * N))); lia.
  - assert (m = k * N + N') as Hm.
    { assert (a * N = (k * N + N') * n) as Hexact by nia.
      unfold m, round_div. rewrite Hexact, Z.div_mul, Z.mod_mul by lia.
      destruct (Z.ltb_spec (2 * 0) n); lia. }
    destruct (div_mod_between m N k ltac:(lia) ltac:(lia)) as [Hq Hmod].
    unfold round_div at 1. rewrite Hq, Hmod.
    destruct (Z.ltb_spec (2 * (m - k * N)) N); [lia|].
    destruct (Z.ltb_spec N (2 * (m - k * N))); [lia|]. reflexivity.
Qed.

(** Below 2^52 the float quotient rounds to the integer the exact quotient
    rounds to. *)
Lemma float64_div_round (a n : Z) :
  0 <= a < 2 ^ 52 -> 0 < n < 2 ^ 52 ->
  round_half_even (float64_div a n) = round_half_even (inject_Z a / inject_Z n).
Proof.
  intros Ha Hn. unfold float64_div.
  set (X := a * 2 ^ 1074).
  set (c := Z.max 0 (Z.log2 (X / n) - 52)).
  assert (0 < 2 ^ 52) as Hp52 by (apply Z.pow_pos_nonneg; lia).
  assert (0 <= X / n <= X) as HXn.
  { assert (0 <= X) by (unfold X; apply Z.mul_nonneg_nonneg; [lia|apply Z.pow_nonneg; lia]).
    split; [apply Z.div_pos; lia|].
    apply Z.div_le_upper_bound; nia. }
  assert (X < 2 ^ 1126) as HX.
  { unfold X. change 1126 with (52 + 1074). rewrite Z.pow_add_r by lia.
    apply Z.mul_lt_mono_pos_r; [apply Z.pow_pos_nonneg|]; lia. }
  assert (0 <= c <= 1073) as Hc.
  { unfold c. split; [lia|].
    destruct (Z.eq_dec (X / n) 0) as [->|Hne]; [simpl; lia|].
    assert (Z.log2 (X / n) < 1126) by (apply Z.log2_lt_pow2; lia). lia. }
  set (N := 2 ^ (1074 - c)).
  assert (2 ^ 1074 = N * 2 ^ c) as HB.
  { unfold N. rewrite <- Z.pow_add_r by lia. f_equal. lia. }
  assert (0 < 2 ^ c) as Hpc by (apply Z.pow_pos_nonneg; lia).
  assert (0 < N) as HN0 by (apply Z.pow_pos_nonneg; lia).
  assert (n < N) as HnN.
  { destruct (Z.eq_dec c 0) as [Hc0|Hc0].
    - assert (2 ^ 52 < N); [|lia].
      unfold N. apply Z.pow_lt_mono_r; lia.
    - assert (c = Z.log2 (X / n) - 52) as Hceq by lia.
      assert (0 < X / n) as Hpos.
      { destruct (Z.eq_dec (X / n) 0) as [H0|H0]; [|lia].
        rewrite H0 in Hceq. simpl in Hceq. lia. }
      pose proof (Z.log2_spec (X / n) Hpos) as [Hlo _].
      replace (Z.log2 (X / n)) with (c + 52) in Hlo by lia.
      rewrite Z.pow_add_r in Hlo by lia.
      pose proof (Z.mul_div_le X n ltac:(lia)) as Hmul.
      assert (X = a * N * 2 ^ c) as HXeq by (unfold X; rewrite HB; ring).
      nia. }
  assert (Z.even N = true) as Heven.
  { unfold N. rewrite Z.even_pow by lia. reflexivity. }
  assert (X = a * N * 2 ^ c) as HXeq by (unfold X; rewrite HB; ring).
  rewrite HXeq, HB, round_div_scale by lia.
  rewrite round_half_even_quotient by nia.
  rewrite round_div_scale by lia.
  rewrite round_div_twice by (auto; lia).
  symmetry. apply round_half_even_quotient. lia.
Qed.


Lemma Zsum_repeat (x : Z) (k : nat) : Zsum (repeat x k) = Z.of_nat k * x.
Proof. induction k as [|k IH]; [reflexivity|]. cbn [repeat Zsum]. lia. Qed.

Lemma map_const {A B} (v : B) (l : list A) :
  map (fun _ => v) l = repeat v (length l).
Proof. induction l as [|x l IH]; simpl; congruence. Qed.

(** Every row of one entry's expansion carries the same rounded share. *)
Lemma exploded_df_row_steps (row : Entry) :
  map row_steps (exploded_df (explode_row row))
  = repeat (round_half_even
              (inject_Z (steps row)
               / inject_Z (Z.of_nat (Z.to_nat (end_date row - start_date row + 1)))))
           (Z.to_nat (end_date row - start_date row + 1)).
Proof.
  unfold exploded_df, explode_row, explode_dates.
  rewrite !map_map. cbn [row_steps day_steps].
  rewrite map_const. now rewrite !date_range_length.
Qed.

(** For an entry of fewer than 2^52 steps the float share rounds to the
    integer the exact share rounds to, so [exploded_df] is the same frame
    either way. *)
Lemma float64_share_rounds_alike (row : Entry) :
  0 <= steps row < 2 ^ 52 ->
  0 < end_date row - start_date row + 1 < 2 ^ 52 ->
  let dates := explode_dates row in
  round_half_even (float64_div (steps row) (Z.of_nat (length dates)))
  = round_half_even (inject_Z (steps row) / inject_Z (Z.of_nat (length dates))).
Proof.
  intros Hsteps Hdays dates. unfold dates, explode_dates.
  rewrite date_range_length, Z2Nat.id by lia.
  now apply float64_div_round.
Qed.

Lemma true_divide_nonneg (a n : Z) : 0 <= a -> true_divide a n = float64_div a n.
Proof.
  intros Ha. unfold true_divide.
  destruct (Z.ltb_spec a 0); [lia|reflexivity].
Qed.

(** Below 2^52 steps the expansion with float shares rounds to the rows
    of the expansion with exact shares. *)
Lemma exploded_df_float64_alike (row : Entry) :
  0 <= steps row < 2 ^ 52 ->
  end_date row - start_date row + 1 < 2 ^ 52 ->
  exploded_df (explode_row_float64 row) = exploded_df (explode_row row).
Proof.
  intros Hsteps Hdays.
  unfold exploded_df, explode_row_float64, explode_row. cbv zeta.
  rewrite !map_map. cbn [day_name day_date day_steps].
  destruct (explode_dates row) as [|d0 dates] eqn:Hdates; [reflexivity|].
  rewrite <- Hdates.
  assert (0 < end_date row - start_date row + 1) as Hpos.
  { assert (length (explode_dates row) <> 0%nat) as Hlen by (rewrite Hdates; discriminate).
    unfold explode_dates in Hlen. rewrite date_range_length in Hlen. lia. }
  apply map_ext. intros d. f_equal.
  rewrite true_divide_nonneg by lia.
  now apply float64_share_rounds_alike.
Qed.

(* ===================================================================== *)
(** ** Date expansion: theorems *)
(* ===================================================================== *)



(** C3 as stated does not hold: 6755399441055748 steps over July 1 to 3
    have the float share 2251799813685249.5, each day gets
    2251799813685250, and the three days sum to 2 more than the steps,
    which is more than 3/2. *)
Lemma expansion_float_total_counterexample :
  let row := mkEntry "Carl" (ymd2ord 2025 7 1) (ymd2ord 2025 7 3) 6755399441055748 in
  0 <= steps row
  /\ end_date row - start_date row + 1 = 3
  /\ Zsum (map row_steps (exploded_df (explode_row_float64 row))) = steps row + 2
  /\ ~ 2 * Z.abs (Zsum (map row_steps (exploded_df (explode_row_float64 row)))
                  - steps row) <= 3.
Proof.
  intros row.
  assert (Zsum (map row_steps (exploded_df (explode_row_float64 row))) = steps row + 2)
    as Hsum by (vm_compute; reflexivity).
  split; [vm_compute; discriminate|]. split; [reflexivity|]. split; [exact Hsum|].
  rewrite Hsum. lia.
Qed.

(** C3, amended. For an entry with 0 <= steps < 2^52 over day_count >= 1
    days (fewer than 2^52), the per-day values, each the float share
    rounded half to even, add up to within day_count/2 of steps, and to
    exactly steps when day_count divides steps. *)
Theorem expansion_float_preserves_total (row : Entry) :
  0 <= steps row < 2 ^ 52 ->
  start_date row <= end_date row ->
  end_date row - start_date row + 1 < 2 ^ 52 ->
  let day_count := end_date row - start_date row + 1 in
  let total := Zsum (map row_steps (exploded_df (explode_row_float64 row))) in
  2 * Z.abs (total - steps row) <= day_count
  /\ (steps row mod day_count = 0 -> total = steps row).
Proof.
  intros Hsteps Hle Hdays day_count total.
  assert (0 < day_count) as Hpos by (unfold day_count; lia).
  assert (total = day_count
                  * round_half_even (inject_Z (steps row) / inject_Z day_count)) as Htotal.
  { unfold total. rewrite exploded_df_float64_alike by assumption.
    rewrite exploded_df_row_steps, Zsum_repeat.
    fold day_count. now rewrite Z2Nat.id by lia. }
  rewrite Htotal. split.
  - now apply round_half_even_quotient_near.
  - intros Hdiv. rewrite round_half_even_quotient_exact by assumption.
    pose proof (Z.div_mod (steps row) day_count ltac:(lia)). lia.
Qed.

Lemma expansion_float_preserves_total_witness :
  2 * Z.abs (Zsum (map row_steps
                     (exploded_df (explode_row_float64 (mkEntry "Carl" 739438 739440 100))))
             - 100) <= 3.
Proof.
  apply (expansion_float_preserves_total (mkEntry "Carl" 739438 739440 100));
    simpl; lia.
Defined.



(* ===================================================================== *)
(** ** Aggregation: facts *)
(* ===================================================================== *)

Section FrameFacts.

Context {A : Type}.

Variable eqb : A -> A -> bool.

Variable leb : A -> A -> bool.

Hypothesis eqb_eq : forall x y, eqb x y = true <-> x = y.

Lemma insert_sorted_perm (x : A) (l : list A) :
  Permutation (insert_sorted leb x l) (x :: l).
Proof.
  induction l as [|y l IH]; simpl; [reflexivity|].
  destruct (leb x y); [reflexivity|].
  rewrite IH. apply perm_swap.
Qed.

Lemma sorted_perm (l : list A) : Permutation (sorted leb l) l.
Proof.
  induction l as [|x l IH]; simpl; [reflexivity|].
  rewrite insert_sorted_perm. now constructor.
Qed.

Lemma unique_In (x : A) (l : list A) : In x (unique eqb l) <-> In x l.
Proof.
  induction l as [|y l IH]; simpl; [reflexivity|].
  rewrite filter_In, IH. split.
  - intros [H|[H _]]; auto.
  - intros [H|H]; [now left|].
    destruct (eqb y x) eqn:E.
    + left. now apply eqb_eq.
    + right. now split.
Qed.

Lemma unique_NoDup (l : list A) : NoDup (unique eqb l).
Proof.
  induction l as [|y l IH]; simpl; constructor.
  - rewrite filter_In. intros [_ H].
    assert (eqb y y = true) as E by now apply eqb_eq.
    rewrite E in H. discriminate.
  - now apply NoDup_filter.
Qed.

Lemma groupby_sum_keys (key : ExplodedRow -> A) (rows : list ExplodedRow) :
  map fst (groupby_sum eqb leb key rows) = sorted leb (unique eqb (map key rows)).
Proof. unfold groupby_sum. rewrite map_map. cbn [fst]. apply map_id. Qed.

Lemma groupby_sum_keys_NoDup (key : ExplodedRow -> A) (rows : list ExplodedRow) :
  NoDup (map fst (groupby_sum eqb leb key rows)).
Proof.
  rewrite groupby_sum_keys.
  eapply Permutation_NoDup; [symmetry; apply sorted_perm|apply unique_NoDup].
Qed.

Lemma groupby_sum_In (key : ExplodedRow -> A) (rows : list ExplodedRow) (k : A) (v : Z) :
  In (k, v) (groupby_sum eqb leb key rows) <->
  In k (map key rows)
  /\ v = Zsum (map row_steps (filter (fun r => eqb (key r) k) rows)).
Proof.
  unfold groupby_sum. rewrite in_map_iff. split.
  - intros (k' & Heq & Hin). inversion Heq; subst. split; [|reflexivity].
    apply unique_In. eapply Permutation_in; [apply sorted_perm|eassumption].
  - intros [Hin ->]. exists k. split; [reflexivity|].
    eapply Permutation_in; [symmetry; apply sorted_perm|]. now apply unique_In.
Qed.

End FrameFacts.

Lemma leaderboard_total_In (lb : list (string * Z)) (nm : string) (v : Z) :
  NoDup (map fst lb) -> In (nm, v) lb -> leaderboard_total lb nm = v.
Proof.
  unfold leaderboard_total.
  induction lb as [|[k w] lb IH]; intros Hnd Hin; [destruct Hin|].
  cbn [find fst]. inversion Hnd as [|? ? Hk Hnd']; subst.
  destruct (String.eqb_spec k nm) as [->|Hne].
  - destruct Hin as [Heq|Hin]; [now inversion Heq|].
    exfalso. apply Hk. change nm with (fst (nm, v)). now apply in_map.
  - destruct Hin as [Heq|Hin]; [inversion Heq; congruence|]. now apply IH.
Qed.

Lemma leaderboard_total_absent (lb : list (string * Z)) (nm : string) :
  ~ In nm (map fst lb) -> leaderboard_total lb nm = 0.
Proof.
  unfold leaderboard_total.
  induction lb as [|[k w] lb IH]; intros Hnin; [reflexivity|].
  cbn [find fst]. cbn [map fst In] in Hnin.
  destruct (String.eqb_spec k nm) as [->|Hne]; [tauto|].
  apply IH. tauto.
Qed.

Lemma Zsum_filter_absent {A} (key : ExplodedRow -> A) (eqb : A -> A -> bool)
      (rows : list ExplodedRow) (k : A) :
  (forall x y, eqb x y = true <-> x = y) ->
  ~ In k (map key rows) ->
  filter (fun r => eqb (key r) k) rows = [].
Proof.
  intros Heqb Hnin.
  induction rows as [|r rows IH]; [reflexivity|].
  cbn [filter]. cbn [map In] in Hnin.
  destruct (eqb (key r) k) eqn:E.
  - apply Heqb in E. tauto.
  - apply IH. tauto.
Qed.

(** A leaderboard shows for each name the sum of the steps of its rows. *)
Lemma leaderboard_total_groupby (rows : list ExplodedRow) (nm : string) :
  leaderboard_total
    (sort_by_steps_desc (groupby_sum String.eqb String.leb row_name rows)) nm
  = Zsum (map row_steps (filter (fun r => String.eqb (row_name r) nm) rows)).
Proof.
  set (lb := groupby_sum String.eqb String.leb row_name rows).
  assert (Permutation (sort_by_steps_desc lb) lb) as Hperm by apply sorted_perm.
  destruct (in_dec string_dec nm (map row_name rows)) as [Hin|Hnin].
  - apply leaderboard_total_In.
    + eapply Permutation_NoDup; [apply Permutation_map; symmetry; exact Hperm|].
      apply groupby_sum_keys_NoDup. apply String.eqb_eq.
    + eapply Permutation_in; [symmetry; exact Hperm|].
      apply groupby_sum_In; [apply String.eqb_eq|]. now split.
  - rewrite (Zsum_filter_absent row_name String.eqb rows nm String.eqb_eq Hnin).
    apply leaderboard_total_absent.
    intros Hin. apply Hnin.
    assert (In nm (map fst lb)) as Hin'.
    { eapply Permutation_in; [apply Permutation_map; exact Hperm|assumption]. }
    unfold lb in Hin'. rewrite groupby_sum_keys in Hin'.
    eapply (unique_In String.eqb String.eqb_eq).
    eapply Permutation_in; [apply sorted_perm|eassumption].
Qed.

(** Splitting rows by week splits their sum: every row counts in the one
    week that is its own. *)
Lemma Zsum_by_week (P : ExplodedRow -> bool) (ws : list Z) (rows : list ExplodedRow) :
  NoDup ws ->
  (forall r, In r rows -> In (row_week r) ws) ->
  Zsum (map (fun w => Zsum (map row_steps (filter P (week_data rows w)))) ws)
  = Zsum (map row_steps (filter P rows)).
Proof.
  intros Hnd. induction rows as [|r rows IH]; intros Hws.
  - unfold week_data. cbn [filter map Zsum]. clear Hnd Hws.
    induction ws as [|w ws IHw]; cbn [map Zsum]; lia.
  - assert (forall ws', NoDup ws' ->
              Zsum (map (fun w => Zsum (map row_steps (filter P (week_data (r :: rows) w)))) ws')
              = (if in_dec Z.eq_dec (row_week r) ws'
                 then Zsum (map row_steps (filter P [r])) else 0)
                + Zsum (map (fun w => Zsum (map row_steps (filter P (week_data rows w)))) ws'))
      as Hsplit.
    { induction ws' as [|w ws' IHw]; intros Hnd'; [reflexivity|].
      inversion Hnd' as [|? ? Hw Hnd'']; subst.
      cbn [map Zsum]. rewrite (IHw Hnd'').
      unfold week_data at 1. cbn [filter].
      destruct (Z.eqb_spec (row_week r) w) as [Heq|Hne].
      - destruct (in_dec Z.eq_dec (row_week r) (w :: ws')) as [_|Hn];
          [|exfalso; apply Hn; now left].
        destruct (in_dec Z.eq_dec (row_week r) ws') as [Hi|_]; [congruence|].
        fold (week_data rows w). cbn [filter].
        destruct (P r); cbn [map Zsum]; lia.
      - fold (week_data rows w).
        destruct (in_dec Z.eq_dec (row_week r) (w :: ws')) as [Hi|Hn],
                 (in_dec Z.eq_dec (row_week r) ws') as [Hi'|Hn'];
          try lia.
        + destruct Hi as [Hi|Hi]; [congruence|contradiction].
        + exfalso. apply Hn. now right. }
    rewrite (Hsplit ws Hnd), IH by (intros; apply Hws; now right).
    destruct (in_dec Z.eq_dec (row_week r) ws) as [_|Hn];
      [|exfalso; apply Hn, Hws; now left].
    cbn [filter]. destruct (P r); cbn [map Zsum]; lia.
Qed.

Lemma weeks_available_spec (xdf : list ExplodedRow) :
  NoDup (weeks_available xdf)
  /\ forall w, In w (weeks_available xdf) <-> In w (map row_week xdf).
Proof.
  unfold weeks_available. split.
  - eapply Permutation_NoDup; [symmetry; apply sorted_perm|].
    apply unique_NoDup, Z.eqb_eq.
  - intros w. split; intros H.
    + apply (unique_In Z.eqb Z.eqb_eq).
      eapply Permutation_in; [apply (sorted_perm Z.leb)|exact H].
    + apply (unique_In Z.eqb Z.eqb_eq) in H.
      eapply Permutation_in; [symmetry; apply (sorted_perm Z.leb)|exact H].
Qed.

Lemma isoweek_july_2025 (d : date) :
  ALLOWED_START_DATE <= d <= ALLOWED_END_DATE -> In (isoweek d) JULY_2025_WEEKS.
Proof.
  intros Hd. apply date_range_In in Hd.
  assert (forallb (fun d => existsb (Z.eqb (isoweek d)) JULY_2025_WEEKS)
                  (date_range ALLOWED_START_DATE ALLOWED_END_DATE) = true) as Hall
    by (vm_compute; reflexivity).
  rewrite forallb_forall in Hall. specialize (Hall d Hd).
  apply existsb_exists in Hall. destruct Hall as (w & Hw & Heq).
  apply Z.eqb_eq in Heq. now rewrite Heq.
Qed.

Lemma exploded_df_rows (df : list Entry) (r : ExplodedRow) :
  In r (exploded_df (exploded df)) ->
  row_week r = isoweek (row_date r)
  /\ exists e, In e df /\ row_name r = name e
               /\ start_date e <= row_date r <= end_date e.
Proof.
  unfold exploded_df, exploded. rewrite in_map_iff.
  intros (x & <- & Hx). cbn [row_week row_date row_name].
  split; [reflexivity|].
  apply in_flat_map in Hx. destruct Hx as (e & He & Hx).
  exists e. split; [assumption|].
  unfold explode_row in Hx. cbv zeta in Hx. apply in_map_iff in Hx.
  destruct Hx as (d & <- & Hd). cbn [day_name day_date].
  split; [reflexivity|]. now apply date_range_In.
Qed.

(* ===================================================================== *)
(** ** Aggregation: theorems *)
(* ===================================================================== *)

(** C4. For every set of expanded rows and every participant, the total
    on the monthly leaderboard is the sum, over the weeks on offer, of the
    participant's totals on the weekly leaderboards; each row's week is on
    offer exactly once.  For a store within July 2025 the weeks are among
    ISO weeks 27 to 31 and the sum may be taken over these. *)
Theorem monthly_total_is_sum_of_weekly_totals (xdf : list ExplodedRow) (nm : string) :
  leaderboard_total (monthly_df xdf) nm
  = Zsum (map (fun w => leaderboard_total (week_leaderboard xdf w) nm)
              (weeks_available xdf))
  /\ (forall r, In r xdf ->
        count_occ Z.eq_dec (weeks_available xdf) (row_week r) = 1%nat)
  /\ (forall df, xdf = exploded_df (exploded df) ->
        Forall in_allowed_month df ->
        incl (weeks_available xdf) JULY_2025_WEEKS
        /\ leaderboard_total (monthly_df xdf) nm
           = Zsum (map (fun w => leaderboard_total (week_leaderboard xdf w) nm)
                       JULY_2025_WEEKS)).
Proof.
  destruct (weeks_available_spec xdf) as [Hnd Hin].
  assert (forall ws,
             map (fun w => leaderboard_total (week_leaderboard xdf w) nm) ws
             = map (fun w => Zsum (map row_steps
                                     (filter (fun r => String.eqb (row_name r) nm)
                                             (week_data xdf w)))) ws) as Hweek.
  { intros ws. apply map_ext. intros w. apply leaderboard_total_groupby. }
  split; [|split].
  - unfold monthly_df. rewrite leaderboard_total_groupby, Hweek.
    symmetry. apply Zsum_by_week; [assumption|].
    intros r Hr. apply Hin. now apply in_map.
  - intros r Hr. apply NoDup_count_occ'; [assumption|].
    apply Hin. now apply in_map.
  - intros df -> Hdf.
    assert (forall r, In r (exploded_df (exploded df)) -> In (row_week r) JULY_2025_WEEKS)
      as Hjuly.
    { intros r Hr. destruct (exploded_df_rows df r Hr) as (-> & e & He & _ & Hd).
      rewrite Forall_forall in Hdf. specialize (Hdf e He).
      unfold in_allowed_month in Hdf. apply isoweek_july_2025. lia. }
    split.
    + intros w Hw. apply Hin in Hw. apply in_map_iff in Hw.
      destruct Hw as (r & <- & Hr). now apply Hjuly.
    + unfold monthly_df. rewrite leaderboard_total_groupby, Hweek.
      symmetry. apply Zsum_by_week; [|assumption].
      unfold JULY_2025_WEEKS. repeat constructor; simpl; intuition lia.
Qed.

Lemma monthly_total_is_sum_of_weekly_totals_witness :
  let df := [mkEntry "Alice" 739433 739435 300; mkEntry "Carl" 739438 739439 9999;
             mkEntry "Alice" 739444 739447 4000] in
  let xdf := exploded_df (exploded df) in
  Forall in_allowed_month df
  /\ weeks_available xdf = [27; 28; 29]
  /\ leaderboard_total (monthly_df xdf) "Alice"
     = Zsum (map (fun w => leaderboard_total (week_leaderboard xdf w) "Alice")
                 JULY_2025_WEEKS).
Proof.
  intros df xdf.
  assert (Forall in_allowed_month df) as Hdf.
  { repeat constructor; vm_compute; discriminate. }
  split; [exact Hdf|]. split; [reflexivity|].
  destruct (monthly_total_is_sum_of_weekly_totals xdf "Alice") as (_ & _ & Hjuly).
  apply (Hjuly df eq_refl Hdf).
Defined.

(** C8 as stated does not hold: with no file there are no views at all,
    so the page holds neither an empty daily series nor a progress of
    (0, 500000). *)
Lemma empty_store_views_counterexample :
  load_data FileNotFound = []
  /\ ~ (get_daily_totals FileNotFound = Some []
        /\ get_team_progress FileNotFound = Some (0, 500000)).
Proof.
  split; [reflexivity|].
  intros [H _]. vm_compute in H. discriminate.
Qed.

(** C8, amended. When the store is empty (no file, a file without
    columns, a table without rows, or a table whose rows all fail to
    parse a date) nothing is expanded and the page takes the branch
    "No step data available yet": it holds no daily totals and no team
    progress. *)
Theorem empty_store_shows_no_step_data (file : csv_file) :
  (file = FileNotFound \/ file = EmptyData
   \/ exists rows, file = Table rows
                   /\ Forall (fun r => csv_start_date r = None \/ csv_end_date r = None) rows) ->
  load_data file = []
  /\ exploded (load_data file) = []
  /\ exploded_float64 (load_data file) = []
  /\ render file = NoStepData
  /\ get_daily_totals file = None
  /\ get_team_progress file = None.
Proof.
  intros Hempty.
  assert (load_data file = []) as Hload.
  { destruct Hempty as [->|[->|(rows & -> & Hrows)]]; try reflexivity.
    unfold load_data. destruct rows as [|r0 rows0] eqn:E; [reflexivity|].
    rewrite <- E in *. clear E.
    induction Hrows as [|r rows Hr _ IH]; [reflexivity|].
    cbn [dropna]. destruct Hr as [-> | Hr]; [assumption|].
    rewrite Hr. now destruct (csv_start_date r). }
  unfold get_daily_totals, get_team_progress, render.
  rewrite Hload. repeat split.
Qed.

Lemma empty_store_shows_no_step_data_witness :
  let file := Table [mkCsvRow "Alice" None (Some 739435) 300;
                     mkCsvRow "Bob" (Some 739435) None 20] in
  render file = NoStepData /\ get_team_progress file = None.
Proof.
  intros file.
  destruct (empty_store_shows_no_step_data file) as (_ & _ & _ & Hrender & _ & Hprogress).
  { right. right. exists [mkCsvRow "Alice" None (Some 739435) 300;
                          mkCsvRow "Bob" (Some 739435) None 20].
    split; [reflexivity|].
    constructor; [left; reflexivity|]. constructor; [right; reflexivity|]. constructor. }
  split; assumption.
Defined.

(* ===================================================================== *)
(** ** Store and submission: further facts *)
(* ===================================================================== *)

Lemma submit_load_cases (file : csv_file) (nm : string) (s e : date) (n : Z) :
  (fst (submit file nm s e n) = Accepted
   /\ load_data (snd (submit file nm s e n)) = load_data file ++ [mkEntry nm s e n])
  \/ (fst (submit file nm s e n) <> Accepted
      /\ snd (submit file nm s e n) = file).
Proof.
  destruct (outcome_eq_dec (fst (submit file nm s e n)) Accepted) as [Hacc|Hrej].
  - left. split; [assumption|]. now apply submit_accepted_load.
  - right. split; [assumption|]. now apply submit_rejected_file.
Qed.

Lemma run_keeps_no_overlap (file : csv_file) (forms : list Submission) :
  no_overlap (load_data file) -> no_overlap (load_data (run file forms)).
Proof.
  intros Hinit.
  apply (run_invariant (fun f => no_overlap (load_data f)) (fun _ => True));
    [| now apply Forall_forall | assumption].
  intros file' f _ Hold. now apply submit_preserves_no_overlap.
Qed.

(** Entries are only ever added, at the end. *)
Lemma run_appends (forms : list Submission) (file : csv_file) :
  exists added,
    load_data (run file forms) = load_data file ++ added
    /\ (length added <= length forms)%nat
    /\ Forall (fun r => exists f, In f forms
                 /\ r = mkEntry (sub_name f) (sub_start f) (sub_end f) (sub_steps f)
                 /\ sub_start f <= sub_end f) added.
Proof.
  revert file. induction forms as [|f forms IH]; intros file.
  - exists []. cbn [run]. rewrite app_nil_r. repeat split; auto.
  - cbn [run]. destruct (IH (snd (submit_form file f))) as (added & Hload & Hlen & Hall).
    assert (Forall (fun r => exists f0, In f0 (f :: forms)
                 /\ r = mkEntry (sub_name f0) (sub_start f0) (sub_end f0) (sub_steps f0)
                 /\ sub_start f0 <= sub_end f0) added) as Hall'.
    { eapply Forall_impl; [|exact Hall].
      intros r (f0 & Hin & Heq). exists f0. split; [now right|assumption]. }
    unfold submit_form in *.
    destruct (submit_load_cases file (sub_name f) (sub_start f) (sub_end f) (sub_steps f))
      as [[Hacc Hnew]|[_ Hsame]].
    + exists (mkEntry (sub_name f) (sub_start f) (sub_end f) (sub_steps f) :: added).
      rewrite Hload, Hnew, <- app_assoc. split; [reflexivity|]. split; [simpl; lia|].
      constructor; [|assumption].
      exists f. split; [now left|]. split; [reflexivity|].
      now destruct (submit_accepted_load _ _ _ _ _ Hacc).
    + exists added. rewrite Hload, Hsame. split; [reflexivity|]. split; [simpl; lia|].
      assumption.
Qed.

(* ===================================================================== *)
(** ** Store and submission: further theorems *)
(* ===================================================================== *)

(** X5. The dates and step counts in the store are never edited or
    removed: after any submissions the stored (start_date, end_date,
    steps) triples are those stored before, in order, followed by at most
    one triple per submission, each taken from one of the forms and with
    start_date <= end_date. *)
Theorem stored_dates_and_steps_only_grow (file : csv_file) (forms : list Submission) :
  exists added,
    map (fun r => (start_date r, end_date r, steps r)) (load_data (run file forms))
    = map (fun r => (start_date r, end_date r, steps r)) (load_data file) ++ added
    /\ (length added <= length forms)%nat
    /\ Forall (fun t => exists f, In f forms
                 /\ t = (sub_start f, sub_end f, sub_steps f)
                 /\ sub_start f <= sub_end f) added.
Proof.
  destruct (run_appends forms file) as (added & Hload & Hlen & Hall).
  exists (map (fun r => (start_date r, end_date r, steps r)) added).
  rewrite Hload, map_app, length_map. split; [reflexivity|]. split; [assumption|].
  apply Forall_map. eapply Forall_impl; [|exact Hall].
  intros r (f & Hin & -> & Hle). exists f. auto.
Qed.

(* ===================================================================== *)
(** ** Aggregation: further facts *)
(* ===================================================================== *)


Lemma Zsum_perm (l1 l2 : list Z) : Permutation l1 l2 -> Zsum l1 = Zsum l2.
Proof. induction 1; cbn [Zsum]; lia. Qed.

Section SortFacts.

Context {A : Type}.

Variable leb : A -> A -> bool.

Hypothesis leb_total : forall x y, leb x y = true \/ leb y x = true.

Hypothesis leb_trans : forall x y z, leb x y = true -> leb y z = true -> leb x z = true.

Lemma insert_sorted_sorted (x : A) (l : list A) :
  StronglySorted (fun a b => leb a b = true) l ->
  StronglySorted (fun a b => leb a b = true) (insert_sorted leb x l).
Proof.
  induction 1 as [|y l Hsorted IH Hall]; cbn [insert_sorted].
  - repeat constructor.
  - destruct (leb x y) eqn:Hxy.
    + constructor; [now constructor|].
      constructor; [assumption|].
      eapply Forall_impl; [|exact Hall]. intros z Hyz. eauto.
    + constructor; [assumption|].
      eapply Permutation_Forall; [symmetry; apply insert_sorted_perm|].
      constructor; [|assumption].
      destruct (leb_total x y); congruence.
Qed.

Lemma sorted_sorted (l : list A) :
  StronglySorted (fun a b => leb a b = true) (sorted leb l).
Proof.
  induction l as [|x l IH]; cbn [sorted]; [constructor|].
  now apply insert_sorted_sorted.
Qed.

End SortFacts.

Lemma sorted_Z_strict (l : list Z) :
  NoDup l -> StronglySorted Z.lt (sorted Z.leb l).
Proof.
  intros Hnd.
  assert (StronglySorted (fun a b => (a <=? b) = true) (sorted Z.leb l)) as Hs.
  { apply sorted_sorted; intros; rewrite ?Z.leb_le in *; lia. }
  assert (NoDup (sorted Z.leb l)) as Hnd'.
  { eapply Permutation_NoDup; [symmetry; apply sorted_perm|assumption]. }
  induction Hs as [|a l' Hs IH Hall]; [constructor|].
  inversion Hnd' as [|? ? Hnin Hnd'']; subst.
  constructor; [now apply IH|].
  rewrite Forall_forall in *. intros b Hb.
  specialize (Hall b Hb). apply Z.leb_le in Hall.
  assert (a <> b) by (intros ->; contradiction). lia.
Qed.

Lemma sort_by_steps_desc_sorted (lb : list (string * Z)) :
  StronglySorted (fun a b => snd b <= snd a) (sort_by_steps_desc lb).
Proof.
  unfold sort_by_steps_desc.
  assert (StronglySorted (fun a b : string * Z => (snd b <=? snd a) = true)
            (sorted (fun a b => snd b <=? snd a) lb)) as Hs.
  { apply sorted_sorted; intros; rewrite ?Z.leb_le in *; lia. }
  induction Hs as [|a l Hs IH Hall]; constructor; [assumption|].
  eapply Forall_impl; [|exact Hall]. intros b Hb. now apply Z.leb_le.
Qed.

Section GroupFacts.

Context {A : Type}.

Variable eqb : A -> A -> bool.

Variable leb : A -> A -> bool.

Hypothesis eqb_eq : forall x y, eqb x y = true <-> x = y.

Variable key : ExplodedRow -> A.

(** Each row counts in the group of its own key and in no other. *)
Lemma Zsum_by_key (ks : list A) (rows : list ExplodedRow) :
  NoDup ks ->
  (forall r, In r rows -> In (key r) ks) ->
  Zsum (map (fun k => Zsum (map row_steps (filter (fun r => eqb (key r) k) rows))) ks)
  = Zsum (map row_steps rows).
Proof.
  intros Hnd. induction rows as [|r rows IH]; intros Hks.
  - cbn [filter map Zsum]. clear. induction ks as [|k ks IHk]; cbn [map Zsum]; lia.
  - assert (forall ks', NoDup ks' ->
              Zsum (map (fun k => Zsum (map row_steps
                                          (filter (fun r0 => eqb (key r0) k) (r :: rows)))) ks')
              = (if existsb (eqb (key r)) ks' then row_steps r else 0)
                + Zsum (map (fun k => Zsum (map row_steps
                                          (filter (fun r0 => eqb (key r0) k) rows))) ks'))
      as Hsplit.
    { induction ks' as [|k ks' IHk]; intros Hnd'; [reflexivity|].
      inversion Hnd' as [|? ? Hk Hnd'']; subst.
      cbn [map Zsum existsb]. rewrite (IHk Hnd''). cbn [filter].
      destruct (eqb (key r) k) eqn:E; cbn [orb map Zsum].
      - apply eqb_eq in E. subst k.
        destruct (existsb (eqb (key r)) ks') eqn:Ex; [|lia].
        apply existsb_exists in Ex. destruct Ex as (k' & Hin & Heq).
        apply eqb_eq in Heq. subst k'. contradiction.
      - lia. }
    rewrite (Hsplit ks Hnd), IH by (intros; apply Hks; now right).
    assert (existsb (eqb (key r)) ks = true) as ->.
    { apply existsb_exists. exists (key r). split; [apply Hks; now left|].
      now apply eqb_eq. }
    cbn [map Zsum]. lia.
Qed.

Lemma groupby_sum_total (rows : list ExplodedRow) :
  Zsum (map snd (groupby_sum eqb leb key rows)) = Zsum (map row_steps rows).
Proof.
  unfold groupby_sum. rewrite map_map. cbn [snd].
  apply Zsum_by_key.
  - eapply Permutation_NoDup; [symmetry; apply sorted_perm|now apply unique_NoDup].
  - intros r Hr. eapply Permutation_in; [symmetry; apply sorted_perm|].
    apply (unique_In eqb eqb_eq). now apply in_map.
Qed.

Lemma groupby_sum_nil (rows : list ExplodedRow) :
  groupby_sum eqb leb key rows = [] <-> rows = [].
Proof.
  split; [|intros ->; reflexivity].
  intros Hnil. destruct rows as [|r rows]; [reflexivity|exfalso].
  assert (In (key r) (map fst (groupby_sum eqb leb key (r :: rows)))) as Hin.
  { rewrite groupby_sum_keys.
    eapply Permutation_in; [symmetry; apply sorted_perm|].
    apply (unique_In eqb eqb_eq). now left. }
  rewrite Hnil in Hin. destruct Hin.
Qed.

End GroupFacts.

Lemma sort_by_steps_desc_nil (lb : list (string * Z)) :
  sort_by_steps_desc lb = [] <-> lb = [].
Proof.
  split; [|intros ->; reflexivity].
  intros Hnil.
  pose proof (sorted_perm (fun a b : string * Z => snd b <=? snd a) lb) as Hperm.
  unfold sort_by_steps_desc in Hnil. rewrite Hnil in Hperm.
  now apply Permutation_nil.
Qed.

(** A leaderboard: names once each, those of the rows, highest sum first. *)
Lemma leaderboard_shape (rows : list ExplodedRow) :
  let lb := sort_by_steps_desc (groupby_sum String.eqb String.leb row_name rows) in
  StronglySorted (fun a b => snd b <= snd a) lb
  /\ NoDup (map fst lb)
  /\ (forall nm, In nm (map fst lb) <-> In nm (map row_name rows))
  /\ Zsum (map snd lb) = Zsum (map row_steps rows)
  /\ (lb = [] <-> rows = []).
Proof.
  intros lb.
  assert (Permutation lb (groupby_sum String.eqb String.leb row_name rows)) as Hperm
    by apply sorted_perm.
  split; [apply sort_by_steps_desc_sorted|]. split; [|split; [|split]].
  - eapply Permutation_NoDup; [apply Permutation_map; symmetry; exact Hperm|].
    apply groupby_sum_keys_NoDup, String.eqb_eq.
  - intros nm.
    assert (In nm (map fst lb)
            <-> In nm (map fst (groupby_sum String.eqb String.leb row_name rows))) as ->.
    { split; apply Permutation_in; [|symmetry]; now apply Permutation_map. }
    rewrite groupby_sum_keys. split; intros H.
    + apply (unique_In String.eqb String.eqb_eq).
      eapply Permutation_in; [apply sorted_perm|exact H].
    + eapply Permutation_in; [symmetry; apply sorted_perm|].
      now apply (unique_In String.eqb String.eqb_eq).
  - rewrite (Zsum_perm _ _ (Permutation_map snd Hperm)).
    apply groupby_sum_total, String.eqb_eq.
  - unfold lb. rewrite sort_by_steps_desc_nil.
    apply groupby_sum_nil, String.eqb_eq.
Qed.

Lemma StronglySorted_head_max (lb : list (string * Z)) (top : string * Z) (rest : list (string * Z)) :
  StronglySorted (fun a b => snd b <= snd a) lb ->
  lb = top :: rest ->
  forall p, In p lb -> snd p <= snd top.
Proof.
  intros Hs -> p [<-|Hin]; [lia|].
  apply StronglySorted_inv in Hs. destruct Hs as [_ Hall].
  rewrite Forall_forall in Hall. now apply Hall.
Qed.

Lemma week_data_nil (xdf : list ExplodedRow) (w : Z) :
  week_data xdf w = [] <-> ~ In w (map row_week xdf).
Proof.
  unfold week_data. split.
  - intros Hnil Hin. apply in_map_iff in Hin. destruct Hin as (r & Hw & Hr).
    assert (In r (filter (fun r => row_week r =? w) xdf)) as Hin'.
    { apply filter_In. split; [assumption|]. now apply Z.eqb_eq. }
    rewrite Hnil in Hin'. destruct Hin'.
  - intros Hnin. induction xdf as [|r xdf IH]; [reflexivity|].
    cbn [filter]. cbn [map In] in Hnin.
    destruct (Z.eqb_spec (row_week r) w); [tauto|]. apply IH. tauto.
Qed.

Lemma exploded_dates (df : list Entry) (d : date) :
  In d (map row_date (exploded_df (exploded df))) <->
  exists e, In e df /\ start_date e <= d <= end_date e.
Proof.
  split.
  - intros Hin. apply in_map_iff in Hin. destruct Hin as (r & <- & Hr).
    destruct (exploded_df_rows df r Hr) as (_ & e & He & _ & Hd). eauto.
  - intros (e & He & Hd).
    unfold exploded_df, exploded. rewrite map_map. cbn [row_date].
    apply in_map_iff.
    exists (mkExplodedDay (name e) d
              (inject_Z (steps e) / inject_Z (Z.of_nat (length (explode_dates e))))).
    split; [reflexivity|].
    apply in_flat_map. exists e. split; [assumption|].
    unfold explode_row. cbv zeta. apply in_map_iff.
    exists d. split; [reflexivity|]. now apply date_range_In.
Qed.

(* ===================================================================== *)
(** ** Aggregation: further theorems *)
(* ===================================================================== *)


(** X8. On the monthly leaderboard and on every weekly one no name
    appears twice, every name shown has rows, its sum is the sum of the
    steps of the rows under that name, and the rows run from the highest
    sum to the lowest; the week's top user, when there is one, is on the
    week's leaderboard with a sum no other row exceeds. *)
Theorem leaderboards_run_high_to_low (xdf : list ExplodedRow) (w : Z) :
  (StronglySorted (fun a b => snd b <= snd a) (monthly_df xdf)
   /\ NoDup (map fst (monthly_df xdf))
   /\ forall nm v, In (nm, v) (monthly_df xdf) ->
        In nm (map row_name xdf)
        /\ v = Zsum (map row_steps (filter (fun r => String.eqb (row_name r) nm) xdf)))
  /\ (StronglySorted (fun a b => snd b <= snd a) (week_leaderboard xdf w)
      /\ NoDup (map fst (week_leaderboard xdf w))
      /\ forall nm v, In (nm, v) (week_leaderboard xdf w) ->
           In nm (map row_name (week_data xdf w))
           /\ v = Zsum (map row_steps
                          (filter (fun r => String.eqb (row_name r) nm) (week_data xdf w))))
  /\ (forall top, top_user xdf w = Some top ->
        In top (week_leaderboard xdf w)
        /\ forall p, In p (week_leaderboard xdf w) -> snd p <= snd top).
Proof.
  assert (forall rows,
            let lb := sort_by_steps_desc (groupby_sum String.eqb String.leb row_name rows) in
            StronglySorted (fun a b => snd b <= snd a) lb
            /\ NoDup (map fst lb)
            /\ forall nm v, In (nm, v) lb ->
                 In nm (map row_name rows)
                 /\ v = Zsum (map row_steps
                                (filter (fun r => String.eqb (row_name r) nm) rows)))
    as Hshape.
  { intros rows lb.
    destruct (leaderboard_shape rows) as (Hs & Hnd & _).
    split; [exact Hs|]. split; [exact Hnd|].
    intros nm v Hin. apply (groupby_sum_In String.eqb String.leb String.eqb_eq).
    eapply Permutation_in; [apply sorted_perm|exact Hin]. }
  split; [apply (Hshape xdf)|]. split; [apply (Hshape (week_data xdf w))|].
  intros top Htop. unfold top_user in Htop.
  destruct (Hshape (week_data xdf w)) as (Hs & _).
  fold (week_leaderboard xdf w) in Hs.
  destruct (week_leaderboard xdf w) as [|t rest] eqn:Hlb; [discriminate|].
  inversion Htop; subst t. split; [now left|].
  now apply (StronglySorted_head_max _ top rest Hs).
Qed.

(** X9. The weeks on offer are the weeks that have rows, each once, in
    increasing order; a week that has a top user is on offer. *)
Theorem weeks_on_offer_are_weeks_with_rows (xdf : list ExplodedRow) (w : Z) :
  StronglySorted Z.lt (weeks_available xdf)
  /\ (In w (weeks_available xdf) <-> exists r, In r xdf /\ row_week r = w)
  /\ (top_user xdf w <> None -> In w (weeks_available xdf)).
Proof.
  destruct (weeks_available_spec xdf) as [Hnd Hin].
  split; [|split].
  - unfold weeks_available. apply sorted_Z_strict, unique_NoDup, Z.eqb_eq.
  - rewrite Hin, in_map_iff. split; intros (r & H1 & H2); eauto.
  - rewrite Hin. unfold top_user.
    destruct (leaderboard_shape (week_data xdf w)) as (_ & _ & _ & _ & Hnil).
    fold (week_leaderboard xdf w) in Hnil.
    pose proof (week_data_nil xdf w) as Hdata.
    destruct (week_leaderboard xdf w) as [|t rest]; [congruence|].
    intros _.
    destruct (in_dec Z.eq_dec w (map row_week xdf)) as [Hyes|Hno]; [assumption|].
    apply Hdata, Hnil in Hno. discriminate.
Qed.

Lemma weeks_on_offer_are_weeks_with_rows_witness :
  let xdf := exploded_df (exploded [mkEntry "Alice" 739433 739435 300]) in
  In 27 (weeks_available xdf).
Proof.
  intros xdf.
  apply (weeks_on_offer_are_weeks_with_rows xdf 27). discriminate.
Defined.

(** X10. The daily series is in date order, a date once, and has a row
    for a day exactly when some stored entry covers that day. *)
Theorem daily_totals_cover_entry_days (df : list Entry) (d : date) :
  let xdf := exploded_df (exploded df) in
  StronglySorted Z.lt (map fst (daily_totals xdf))
  /\ (In d (map fst (daily_totals xdf)) <->
      exists e, In e df /\ start_date e <= d <= end_date e).
Proof.
  intros xdf. unfold daily_totals. rewrite groupby_sum_keys. split.
  - apply sorted_Z_strict, unique_NoDup, Z.eqb_eq.
  - rewrite <- exploded_dates. fold xdf. split; intros H.
    + apply (unique_In Z.eqb Z.eqb_eq).
      eapply Permutation_in; [apply (sorted_perm Z.leb)|exact H].
    + eapply Permutation_in; [symmetry; apply (sorted_perm Z.leb)|].
      now apply (unique_In Z.eqb Z.eqb_eq).
Qed.

(* ===================================================================== *)
(** ** Expansion over the whole store: facts *)
(* ===================================================================== *)


(** What one entry adds to the team total. *)
Lemma total_steps_explode_row (row : Entry) :
  start_date row <= end_date row ->
  total_steps (exploded_df (explode_row row))
  = (end_date row - start_date row + 1)
    * round_half_even (inject_Z (steps row)
                       / inject_Z (end_date row - start_date row + 1)).
Proof.
  intros Hle. unfold total_steps.
  rewrite exploded_df_row_steps, Zsum_repeat.
  now rewrite Z2Nat.id by lia.
Qed.

Lemma no_overlap_cons (r : Entry) (df : list Entry) :
  no_overlap (r :: df) ->
  no_overlap df
  /\ forall r', In r' df -> lower (name r) = lower (name r') ->
       date_ranges_overlap (start_date r) (end_date r) (start_date r') (end_date r') = false.
Proof.
  intros Hno. split.
  - intros i j r1 r2 Hij H1 H2. apply (Hno (S i) (S j)); auto.
  - intros r' Hin Hnm. apply In_nth_error in Hin. destruct Hin as [j Hj].
    apply (Hno 0%nat (S j)); auto.
Qed.

Lemma count_le_1_of_NoDup (f : date -> ExplodedDay) (p : ExplodedDay -> bool) (d : date)
      (l : list date) :
  NoDup l ->
  (forall y, p (f y) = true -> y = d) ->
  (length (filter p (map f l)) <= 1)%nat.
Proof.
  intros Hnd Hp. induction Hnd as [|y l Hnin Hnd IH]; [simpl; lia|].
  cbn [map filter]. destruct (p (f y)) eqn:E; [|assumption].
  apply Hp in E. subst y. cbn [length].
  assert (filter p (map f l) = []) as ->; [|simpl; lia].
  clear IH Hnd. induction l as [|z l IH]; [reflexivity|].
  cbn [map filter]. destruct (p (f z)) eqn:E.
  - apply Hp in E. subst z. exfalso. apply Hnin. now left.
  - apply IH. intros Hin. apply Hnin. now right.
Qed.

(* ===================================================================== *)
(** ** Expansion over the whole store: theorems *)
(* ===================================================================== *)

(** X11. A store in which no two entries of a participant overlap counts
    no day twice: for every participant (names up to case) and every day
    the expansion holds at most one record. *)
Theorem no_day_counted_twice (df : list Entry) (nm : string) (d : date) :
  no_overlap df ->
  (length (filter (fun x => String.eqb (lower (day_name x)) (lower nm) && Z.eqb (day_date x) d)
                  (exploded df)) <= 1)%nat.
Proof.
  set (p := fun x => String.eqb (lower (day_name x)) (lower nm) && (day_date x =? d)).
  induction df as [|r df IH]; intros Hno; [simpl; lia|].
  apply no_overlap_cons in Hno. destruct Hno as [Hno Hr].
  specialize (IH Hno).
  change (exploded (r :: df)) with (explode_row r ++ exploded df).
  rewrite filter_app, length_app.
  assert (length (filter p (explode_row r)) <= 1)%nat as Hone.
  { unfold explode_row. cbv zeta.
    apply (count_le_1_of_NoDup _ p d); [apply date_range_NoDup|].
    intros y Hy. unfold p in Hy. cbn [day_date] in Hy.
    apply andb_prop in Hy. destruct Hy as [_ Hy]. now apply Z.eqb_eq. }
  destruct (filter p (explode_row r)) as [|x xs] eqn:Hhere; [simpl; lia|].
  destruct (filter p (exploded df)) as [|x' xs'] eqn:Hthere; [simpl in *; lia|].
  exfalso.
  assert (In x (filter p (explode_row r))) as Hx by (rewrite Hhere; now left).
  assert (In x' (filter p (exploded df))) as Hx' by (rewrite Hthere; now left).
  apply filter_In in Hx, Hx'. destruct Hx as [Hx Hpx], Hx' as [Hx' Hpx'].
  unfold p in Hpx, Hpx'. apply andb_prop in Hpx, Hpx'.
  destruct Hpx as [Hn Hd], Hpx' as [Hn' Hd'].
  apply String.eqb_eq in Hn, Hn'. apply Z.eqb_eq in Hd, Hd'.
  unfold explode_row in Hx. cbv zeta in Hx. apply in_map_iff in Hx.
  destruct Hx as (y & <- & Hy). cbn [day_name day_date] in Hn, Hd. subst y.
  apply date_range_In in Hy.
  unfold exploded in Hx'. apply in_flat_map in Hx'. destruct Hx' as (r' & Hr' & Hx').
  unfold explode_row in Hx'. cbv zeta in Hx'. apply in_map_iff in Hx'.
  destruct Hx' as (y & <- & Hy'). cbn [day_name day_date] in Hn', Hd'. subst y.
  apply date_range_In in Hy'.
  specialize (Hr r' Hr' ltac:(congruence)).
  unfold date_ranges_overlap in Hr. apply Z.leb_gt in Hr. lia.
Qed.

Lemma no_day_counted_twice_witness :
  let df := load_data (run FileNotFound [mkSubmission "Alice" 739433 739435 300;
                                         mkSubmission "alice" 739436 739437 80]) in
  (length (filter (fun x => String.eqb (lower (day_name x)) (lower "ALICE")
                            && Z.eqb (day_date x) 739435)
                  (exploded df)) <= 1)%nat.
Proof.
  intros df.
  apply (no_day_counted_twice df "ALICE" 739435).
  apply run_keeps_no_overlap, no_overlap_nil.
Defined.







(* ===================================================================== *)
(** ** Floats and weeks: theorems *)
(* ===================================================================== *)

(** X18. For an entry of fewer than 2^52 steps over fewer than 2^52 days,
    every per-day value is the float quotient steps / len(dates) rounded
    half to even: the exact quotient and the float round alike. *)
Theorem per_day_value_is_rounded_float (row : Entry) (r : ExplodedRow) :
  0 <= steps row < 2 ^ 52 ->
  0 < end_date row - start_date row + 1 < 2 ^ 52 ->
  In r (exploded_df (explode_row row)) ->
  row_steps r
  = round_half_even (float64_div (steps row) (Z.of_nat (length (explode_dates row)))).
Proof.
  intros Hsteps Hdays Hin.
  rewrite float64_share_rounds_alike by assumption.
  assert (In (row_steps r) (map row_steps (exploded_df (explode_row row)))) as Hin'
    by now apply in_map.
  rewrite exploded_df_row_steps in Hin'. apply repeat_spec in Hin'.
  unfold explode_dates. now rewrite date_range_length.
Qed.

Lemma per_day_value_is_rounded_float_witness :
  let row := mkEntry "Carl" 739438 739439 9999 in
  let r := mkExplodedRow "Carl" 739438 5000 27 in
  row_steps r = round_half_even (float64_div 9999 2).
Proof.
  intros row r.
  apply (per_day_value_is_rounded_float row r);
    [simpl; lia | simpl; lia | left; reflexivity].
Defined.

(** X19. Within the allowed month the week of a day counts Mondays from
    June 30, 2025: July 1 to 6 is week 27, July 7 to 13 week 28, July 14
    to 20 week 29, July 21 to 27 week 30 and July 28 to 31 week 31. *)
Theorem july_weeks_run_monday_to_sunday (d : date) :
  ALLOWED_START_DATE <= d <= ALLOWED_END_DATE ->
  isoweek d = 27 + (d - ymd2ord 2025 6 30) / 7
  /\ (ymd2ord 2025 6 30 + 6) mod 7 = 0.
Proof.
  intros Hd. split; [|reflexivity].
  apply date_range_In in Hd.
  assert (forallb (fun d => isoweek d =? 27 + (d - ymd2ord 2025 6 30) / 7)
                  (date_range ALLOWED_START_DATE ALLOWED_END_DATE) = true) as Hall
    by (vm_compute; reflexivity).
  rewrite forallb_forall in Hall. now apply Z.eqb_eq, Hall.
Qed.

Lemma july_weeks_run_monday_to_sunday_witness :
  isoweek (ymd2ord 2025 7 13) = 28 /\ isoweek (ymd2ord 2025 7 14) = 29.
Proof.
  split.
  - destruct (july_weeks_run_monday_to_sunday (ymd2ord 2025 7 13)) as [H _];
      [vm_compute; split; discriminate|exact H].
  - destruct (july_weeks_run_monday_to_sunday (ymd2ord 2025 7 14)) as [H _];
      [vm_compute; split; discriminate|exact H].
Defined.

(** X22. An entry within July 2025 with start_date <= end_date and
    0 <= steps < 2^52 spans between 1 and 31 days, expands to that many
    records, and its per-day values add up to a total that is not
    negative and within 15 of its steps. *)
Theorem july_entry_total_within_15 (row : Entry) :
  in_allowed_month row ->
  valid_range row ->
  0 <= steps row < 2 ^ 52 ->
  let day_count := end_date row - start_date row + 1 in
  1 <= day_count <= 31
  /\ Z.of_nat (length (explode_row_float64 row)) = day_count
  /\ Z.abs (total_steps (exploded_df (explode_row_float64 row)) - steps row) <= 15
  /\ 0 <= total_steps (exploded_df (explode_row_float64 row)).
Proof.
  intros Hin Hle Hsteps day_count.
  unfold in_allowed_month in Hin. unfold valid_range in Hle.
  change ALLOWED_START_DATE with 739433 in Hin.
  change ALLOWED_END_DATE with 739463 in Hin.
  assert (1 <= day_count <= 31) as Hdays by (unfold day_count; lia).
  assert (2 ^ 52 = 4503599627370496) as Hpow by reflexivity.
  split; [assumption|]. split.
  { unfold explode_row_float64, explode_dates. cbv zeta.
    rewrite length_map, date_range_length. unfold day_count in *. lia. }
  rewrite exploded_df_float64_alike by (fold day_count; lia).
  rewrite total_steps_explode_row by assumption. fold day_count.
  pose proof (round_half_even_quotient_near (steps row) day_count ltac:(lia)) as Hnear.
  split; [lia|].
  apply Z.mul_nonneg_nonneg; [lia|].
  rewrite round_half_even_quotient by lia. unfold round_div.
  assert (0 <= steps row / day_count) by (apply Z.div_pos; lia).
  destruct (_ <? _); [lia|]. destruct (_ <? _); [lia|]. destruct (Z.even _); lia.
Qed.

Lemma july_entry_total_within_15_witness :
  Z.abs (total_steps (exploded_df (explode_row_float64 (mkEntry "Carl" 739433 739463 1000)))
         - 1000) <= 15.
Proof.
  apply (july_entry_total_within_15 (mkEntry "Carl" 739433 739463 1000)).
  - unfold in_allowed_month. vm_compute. repeat split; discriminate.
  - unfold valid_range. simpl. lia.
  - simpl. lia.
Defined.

(* ===================================================================== *)
(** ** Scenarios *)
(* ===================================================================== *)

(** Alice logs 300 steps for July 1 to July 3: three days of 100 steps;
    her later entry for July 2 is refused as overlapping. *)
Example scenario_alice :
  let file := snd (submit FileNotFound "Alice" (ymd2ord 2025 7 1) (ymd2ord 2025 7 3) 300) in
  map (fun r => (row_date r, row_steps r)) (exploded_df (exploded (load_data file)))
  = [(ymd2ord 2025 7 1, 100); (ymd2ord 2025 7 2, 100); (ymd2ord 2025 7 3, 100)]
  /\ submit file "Alice" (ymd2ord 2025 7 2) (ymd2ord 2025 7 2) 50 = (OverlapConflict, file).
Proof. split; reflexivity. Qed.

(** Bob logs 9999 steps for July 10: the team progress is 9999 of 500000. *)
Example scenario_bob :
  let file := snd (submit FileNotFound "Bob" (ymd2ord 2025 7 10) (ymd2ord 2025 7 10) 9999) in
  get_team_progress file = Some (9999, 500000)
  /\ get_daily_totals file = Some [(ymd2ord 2025 7 10, 9999)].
Proof. split; reflexivity. Qed.

(** July 2025 starts on a Tuesday of ISO week 27 and ends on a Thursday of
    ISO week 31. *)
Example july_2025_weeks :
  (ALLOWED_START_DATE + 6) mod 7 = 1 /\ isoweek ALLOWED_START_DATE = 27
  /\ (ALLOWED_END_DATE + 6) mod 7 = 3 /\ isoweek ALLOWED_END_DATE = 31.
Proof. repeat split. Qed.

(** The float quotient at work: 5 / 2 is 2.5 and rounds to 2; from 2^52
    steps on a float share may be a half where the exact share is not. *)
Example float64_shares :
  (float64_div 5 2 == 5 # 2)%Q
  /\ round_half_even (float64_div 5 2) = 2
  /\ (float64_div 6755399441055748 3 == 4503599627370499 # 2)%Q
  /\ round_half_even (inject_Z 6755399441055748 / inject_Z 3) = 2251799813685249.
Proof. repeat split; vm_compute; reflexivity. Qed.
